(** * Vote tally service (main.go): model and verification

    The service keeps two package-level maps behind one mutex:
    [voteCounts : map[string]int] (the aggregate tally) and
    [userVotes : map[string]string] (each user's current vote).
    [voteHandler] (POST /vote) mutates them, [resultsHandler]
    (GET /results) reads the tally.

    [voteHandler] tests the vote label against [voteCounts] before it takes
    the mutex and does all its writes while holding it; [resultsHandler]
    reads the tally while holding it.  The model covers runs in which the
    handler calls do not overlap: a run of the server is a sequence of
    handler calls, and the two maps are threaded through that sequence
    explicitly. *)

From Stdlib Require Import ZArith Lia.
From stdpp Require Import base option gmap strings list fin_maps.

Local Open Scope Z_scope.

(* naive_solver clears hypotheses it has already consumed. *)
#[local] Set Warnings "-clear-no-such-hyp".

(** ** Go's [int]

    [int] is a two's-complement machine integer; on the 64-bit targets the
    server is built for it has 64 bits.  Values are carried as [Z] inside
    the range, and [++] / [--] wrap around silently as in Go. *)
Module GoInt.

Definition bits : Z := 64.
Definition modulus : Z := 2 ^ bits.
Definition min_int : Z := - 2 ^ (bits - 1).
Definition max_int : Z := 2 ^ (bits - 1) - 1.

(* Reduce an integer to the signed [bits]-bit representative. *)
Definition wrap (z : Z) : Z :=
  (z + 2 ^ (bits - 1)) mod modulus - 2 ^ (bits - 1).

(* [x++] and [x--] *)
Definition incr (z : Z) : Z := wrap (z + 1).
Definition decr (z : Z) : Z := wrap (z - 1).

Definition in_range (z : Z) : Prop := min_int <= z <= max_int.

End GoInt.

(** ** Data *)

(* type VoteRequest struct { UserID string; Vote string } *)
Record VoteRequest := mkReq { UserID : string; Vote : string }.

(* The three vote options of the deployment (hot, just right, cold). *)
Definition Hot : string := "あつい".
Definition Mild : string := "ちょうどよい".
Definition Cold : string := "さむい".

Definition categories : gset string := {[ Hot; Mild; Cold ]}.

(* The shared variables guarded by [mutex]. *)
Record Store := mkStore {
  voteCounts : gmap string Z;
  userVotes : gmap string string
}.

(* var voteCounts = map[string]int{...: 0}; userVotes = make(map[string]string) *)
Definition init : Store :=
  {| voteCounts := <[Hot := 0]> (<[Mild := 0]> (<[Cold := 0]> ∅));
     userVotes := ∅ |}.

(* Reading [m[k]] on an [int]-valued Go map: the zero value when [k] is absent. *)
Definition index (m : gmap string Z) (k : string) : Z := default 0 (m !! k).

(* [m[k]++] and [m[k]--]: read with [index], write back (creating the key
   when it was absent). *)
Definition incrAt (k : string) (m : gmap string Z) : gmap string Z :=
  <[k := GoInt.incr (index m k)]> m.
Definition decrAt (k : string) (m : gmap string Z) : gmap string Z :=
  <[k := GoInt.decr (index m k)]> m.

(** ** voteHandler *)

Inductive Outcome :=
  | VoteRecorded       (* 200, "Vote recorded successfully" *)
  | InvalidCategory.   (* 400, "Invalid vote option" *)

(* Lines 58-63: undo the user's previous vote when it differs. *)
Definition retractPrevious (req : VoteRequest) (s : Store) : gmap string Z :=
  match userVotes s !! UserID req with
  | Some previousVote =>
      if decide (previousVote ≠ Vote req)
      then decrAt previousVote (voteCounts s)
      else voteCounts s
  | None => voteCounts s
  end.

(* Lines 48-67 of voteHandler: the part that runs on a decoded request. *)
Definition castVote (req : VoteRequest) (s : Store) : Store * Outcome :=
  match voteCounts s !! Vote req with
  | None => (s, InvalidCategory)
  | Some _ =>
      ({| voteCounts := incrAt (Vote req) (retractPrevious req s);
          userVotes := <[UserID req := Vote req]> (userVotes s) |},
       VoteRecorded)
  end.

(** ** The HTTP handlers

    A request reaches [voteHandler] as its method and the result of
    decoding its body into a [VoteRequest]. *)

Inductive Body :=
  | Text (msg : string)
  | Json (counts : gmap string Z).

Record Response := mkResp { status : Z; body : Body }.

Inductive Decoded :=
  | DecodeError (msg : string)
  | DecodedRequest (req : VoteRequest).

(* [http.Error(w, msg, code)] and [fmt.Fprintln(w, msg)] both write [msg]
   followed by a newline. *)
Definition newline : string :=
  String (Ascii.Ascii false true false true false false false false) EmptyString.

Definition line (msg : string) : Body := Text (msg +:+ newline).

Definition voteHandler (method : string) (decoded : Decoded) (s : Store)
  : Store * Response :=
  if decide (method ≠ "POST") then
    (s, mkResp 405 (line "Invalid request method"))
  else
    match decoded with
    | DecodeError msg => (s, mkResp 400 (line msg))
    | DecodedRequest req =>
        match castVote req s with
        | (s', InvalidCategory) => (s', mkResp 400 (line "Invalid vote option"))
        | (s', VoteRecorded) => (s', mkResp 200 (line "Vote recorded successfully"))
        end
    end.

Definition resultsHandler (method : string) (s : Store) : Store * Response :=
  if decide (method ≠ "GET") then
    (s, mkResp 405 (line "Invalid request method"))
  else
    (s, mkResp 200 (Json (voteCounts s))).

(** ** The two operations of the store and runs of them *)

Definition CastVote (userID category : string) (s : Store) : Store * Outcome :=
  castVote (mkReq userID category) s.

(* The tally a GET /results call serialises. *)
Definition Snapshot (s : Store) : gmap string Z :=
  match body (resultsHandler "GET" s).2 with
  | Json counts => counts
  | Text _ => ∅
  end.

(* A sequence of CastVote calls, oldest first. *)
Fixpoint runVotes (reqs : list VoteRequest) (s : Store) : Store :=
  match reqs with
  | [] => s
  | req :: rest => runVotes rest (castVote req s).1
  end.

Inductive Call :=
  | CallCastVote (userID category : string)
  | CallSnapshot.

Definition step (c : Call) (s : Store) : Store :=
  match c with
  | CallCastVote u cat => (CastVote u cat s).1
  | CallSnapshot => (resultsHandler "GET" s).1
  end.

Fixpoint run (calls : list Call) (s : Store) : Store :=
  match calls with
  | [] => s
  | c :: rest => run rest (step c s)
  end.

(* The categories of the votes of [u] that were accepted while running
   [reqs] from [s], oldest first. *)
Fixpoint acceptedBy (u : string) (reqs : list VoteRequest) (s : Store)
  : list string :=
  match reqs with
  | [] => []
  | req :: rest =>
      match castVote req s with
      | (s', VoteRecorded) =>
          (if decide (UserID req = u) then [Vote req] else [])
            ++ acceptedBy u rest s'
      | (s', InvalidCategory) => acceptedBy u rest s'
      end
  end.

(** ** The tally derived from the user vote record *)

(* Number of users whose current vote is [c]. *)
Definition histogram (uv : gmap string string) (c : string) : Z :=
  Z.of_nat (size (filter (λ kv : string * string, kv.2 = c) uv)).

(* Sum of all category counts. *)
Definition totalVotes (s : Store) : Z :=
  map_fold (λ _ n acc, n + acc) 0 (voteCounts s).

(* Number of distinct users with a recorded vote. *)
Definition voters (s : Store) : Z := Z.of_nat (size (userVotes s)).

(* The tally agrees with the histogram of the record on every category. *)
Definition tallyIsHistogram (s : Store) : Prop :=
  map_Forall (λ c n, n = histogram (userVotes s) c) (voteCounts s).

(* Well-formed stores: the tally has exactly the three categories and every
   recorded vote is one of them. *)
Definition wf (s : Store) : Prop :=
  dom (voteCounts s) = categories ∧
  map_Forall (λ _ c, c ∈ categories) (userVotes s).

(* The tally with the given three counts. *)
Definition tallyOf (hot mild cold : Z) : gmap string Z :=
  <[Hot := hot]> (<[Mild := mild]> (<[Cold := cold]> ∅)).

(* After [m] calls: every count is at least the number of users currently
   recorded for the category, and at most [m]. *)
Definition bounded (m : Z) (s : Store) : Prop :=
  map_Forall (λ c n, histogram (userVotes s) c <= n <= m) (voteCounts s).

(* 2^63 votes of "u1" for Hot. *)
Definition overflowRun : list VoteRequest :=
  repeat (mkReq "u1" Hot) (Z.to_nat (2 ^ 63)).

(** ** Requests as the router hands them to the handlers

    [main] registers [voteHandler] for /vote and [resultsHandler] for
    /results; a run of the server is a sequence of such handler
    invocations that do not overlap. *)

Inductive Invocation :=
  | ToVote (method : string) (decoded : Decoded)
  | ToResults (method : string).

Definition handle (i : Invocation) (s : Store) : Store * Response :=
  match i with
  | ToVote method decoded => voteHandler method decoded s
  | ToResults method => resultsHandler method s
  end.

(* The store after a sequence of invocations, with the responses sent. *)
Fixpoint serveAll (invs : list Invocation) (s : Store) : Store * list Response :=
  match invs with
  | [] => (s, [])
  | i :: rest =>
      let (s1, r) := handle i s in
      let (s2, rs) := serveAll rest s1 in
      (s2, r :: rs)
  end.

(* The decoded bodies of the POST invocations of [voteHandler]. *)
Fixpoint votesOf (invs : list Invocation) : list VoteRequest :=
  match invs with
  | [] => []
  | ToVote method (DecodedRequest req) :: rest =>
      if decide (method = "POST") then req :: votesOf rest else votesOf rest
  | _ :: rest => votesOf rest
  end.

(* [req] is accepted in [s] although its user is already recorded for the
   very category [c] it names. *)
Definition isRepeat (c : string) (req : VoteRequest) (s : Store) : bool :=
  match (castVote req s).2 with
  | VoteRecorded =>
      bool_decide (Vote req = c ∧ userVotes s !! UserID req = Some c)
  | InvalidCategory => false
  end.

(* Number of such repeated votes for [c] while running [reqs] from [s]. *)
Fixpoint repeats (c : string) (reqs : list VoteRequest) (s : Store) : Z :=
  match reqs with
  | [] => 0
  | req :: rest =>
      (if isRepeat c req s then 1 else 0) + repeats c rest (castVote req s).1
  end.

(* The requests that name one of the three categories. *)
Definition validOnly (reqs : list VoteRequest) : list VoteRequest :=
  filter (λ req, Vote req ∈ categories) reqs.

(* The requests sent by [u]. *)
Definition sentBy (u : string) (reqs : list VoteRequest) : list VoteRequest :=
  filter (λ req, UserID req = u) reqs.

(* Number of repeated votes, all categories together. *)
Definition allRepeats (reqs : list VoteRequest) (s : Store) : Z :=
  repeats Hot reqs s + repeats Mild reqs s + repeats Cold reqs s.

(* 2^63 - 1 votes of "u1" for Hot: they bring the count of Hot to the
   largest [int]. *)
Definition saturatingRun : list VoteRequest :=
  repeat (mkReq "u1" Hot) (Z.to_nat (2 ^ 63 - 1)).

(* The store after [saturatingRun]: "u1" is recorded for Hot and the count
   of Hot is the largest [int]. *)
Definition saturated : Store := runVotes saturatingRun init.

(* The same after "u2" has first voted Cold. *)
Definition saturatedAfterCold : Store :=
  runVotes saturatingRun (runVotes [mkReq "u2" Cold] init).

(* The store after [overflowRun]: "u1" is recorded for Hot and the count of
   Hot has wrapped to the smallest [int]. *)
Definition overflowed : Store := runVotes overflowRun init.

(** * Verification *)

Example castVote_first :
  voteCounts (castVote (mkReq "u1" Hot) init).1 !! Hot = Some 1.
Proof. vm_compute. reflexivity. Qed.

Example histogram_two :
  histogram (userVotes (runVotes [mkReq "u1" Hot; mkReq "u2" Hot; mkReq "u3" Cold] init)) Hot = 2.
Proof. vm_compute. reflexivity. Qed.

Example total_two :
  totalVotes (runVotes [mkReq "u1" Hot; mkReq "u1" Hot; mkReq "u3" Cold] init) = 3.
Proof. vm_compute. reflexivity. Qed.

(** ** Go integer arithmetic *)

Lemma GoInt_incr_exact (z : Z) :
  GoInt.min_int <= z < GoInt.max_int → GoInt.incr z = z + 1.
Proof.
  unfold GoInt.incr, GoInt.wrap, GoInt.min_int, GoInt.max_int, GoInt.modulus,
    GoInt.bits.
  intros Hz. rewrite Z.mod_small; lia.
Qed.

Lemma GoInt_decr_exact (z : Z) :
  GoInt.min_int < z <= GoInt.max_int → GoInt.decr z = z - 1.
Proof.
  unfold GoInt.decr, GoInt.wrap, GoInt.min_int, GoInt.max_int, GoInt.modulus,
    GoInt.bits.
  intros Hz. rewrite Z.mod_small; lia.
Qed.

Lemma GoInt_wrap_in_range (z : Z) : GoInt.in_range (GoInt.wrap z).
Proof.
  unfold GoInt.in_range, GoInt.wrap, GoInt.min_int, GoInt.max_int,
    GoInt.modulus, GoInt.bits.
  pose proof (Z.mod_pos_bound (z + 2 ^ (64 - 1)) (2 ^ 64)). lia.
Qed.

(** ** One call of castVote *)

Lemma castVote_invalid (req : VoteRequest) (s : Store) :
  voteCounts s !! Vote req = None → castVote req s = (s, InvalidCategory).
Proof. intros H. unfold castVote. by rewrite H. Qed.

Lemma castVote_valid (req : VoteRequest) (s : Store) :
  is_Some (voteCounts s !! Vote req) →
  castVote req s =
    ({| voteCounts := incrAt (Vote req) (retractPrevious req s);
        userVotes := <[UserID req := Vote req]> (userVotes s) |},
     VoteRecorded).
Proof. intros [n H]. unfold castVote. by rewrite H. Qed.

Lemma castVote_outcome (req : VoteRequest) (s : Store) :
  (castVote req s).2 = InvalidCategory ↔ Vote req ∉ dom (voteCounts s).
Proof.
  rewrite not_elem_of_dom. unfold castVote.
  destruct (voteCounts s !! Vote req); simpl; split; congruence.
Qed.

Lemma retractPrevious_none (req : VoteRequest) (s : Store) :
  userVotes s !! UserID req = None → retractPrevious req s = voteCounts s.
Proof. intros H. unfold retractPrevious. by rewrite H. Qed.

Lemma retractPrevious_same (req : VoteRequest) (s : Store) :
  userVotes s !! UserID req = Some (Vote req) →
  retractPrevious req s = voteCounts s.
Proof.
  intros H. unfold retractPrevious. rewrite H.
  by rewrite decide_False by (intros Hne; by apply Hne).
Qed.

Lemma retractPrevious_other (req : VoteRequest) (s : Store) (p : string) :
  userVotes s !! UserID req = Some p → p ≠ Vote req →
  retractPrevious req s = decrAt p (voteCounts s).
Proof. intros H Hne. unfold retractPrevious. rewrite H. by rewrite decide_True. Qed.

Lemma dom_retractPrevious (req : VoteRequest) (s : Store) :
  wf s → dom (retractPrevious req s) = categories.
Proof.
  intros [Hdom Hrec]. unfold retractPrevious.
  destruct (userVotes s !! UserID req) as [p|] eqn:Hp; [|done].
  case_decide; [|done].
  unfold decrAt. rewrite dom_insert_L, Hdom.
  apply (Hrec _ _) in Hp.
  by apply subseteq_union_1_L, singleton_subseteq_l.
Qed.

Lemma castVote_wf (req : VoteRequest) (s : Store) :
  wf s → wf (castVote req s).1.
Proof.
  intros Hwf. unfold castVote.
  destruct (voteCounts s !! Vote req) as [n|] eqn:Hn; [|done].
  assert (Vote req ∈ categories) as Hin.
  { destruct Hwf as [<- _]. apply elem_of_dom. eauto. }
  split; simpl.
  - unfold incrAt. rewrite dom_insert_L, dom_retractPrevious by done.
    by apply subseteq_union_1_L, singleton_subseteq_l.
  - apply map_Forall_insert_2; [done|]. apply Hwf.
Qed.

Lemma init_wf : wf init.
Proof.
  split; [|apply map_Forall_empty]. vm_compute. reflexivity.
Qed.

Lemma runVotes_wf (reqs : list VoteRequest) (s : Store) :
  wf s → wf (runVotes reqs s).
Proof.
  revert s. induction reqs as [|req rest IH]; intros s Hwf; [done|].
  simpl. apply IH. by apply castVote_wf.
Qed.

Lemma runVotes_app (l1 l2 : list VoteRequest) (s : Store) :
  runVotes (l1 ++ l2) s = runVotes l2 (runVotes l1 s).
Proof. revert s. induction l1 as [|r l1 IH]; intros s; [done|]. simpl. apply IH. Qed.

(* A decoded POST is exactly one castVote: 200 when the vote is recorded,
   400 with the store unchanged when the label is unknown. *)
Lemma voteHandler_post (req : VoteRequest) (s : Store) :
  (voteHandler "POST" (DecodedRequest req) s).1 = (castVote req s).1 ∧
  status (voteHandler "POST" (DecodedRequest req) s).2
  = match (castVote req s).2 with
    | VoteRecorded => 200
    | InvalidCategory => 400
    end.
Proof.
  unfold voteHandler. rewrite decide_False by (intros H; by apply H).
  by destruct (castVote req s) as [s' [|]].
Qed.

(* Anything but a decoded POST leaves the store alone. *)
Lemma voteHandler_refused (method : string) (msg : string) (req : VoteRequest)
    (s : Store) :
  (voteHandler "POST" (DecodeError msg) s).1 = s ∧
  (method ≠ "POST" → (voteHandler method (DecodedRequest req) s).1 = s).
Proof.
  split; [done|]. intros Hm. unfold voteHandler. by rewrite decide_True.
Qed.

(** ** The histogram under an update of the record *)

Lemma histogram_nonneg (uv : gmap string string) (c : string) :
  0 <= histogram uv c.
Proof. unfold histogram. lia. Qed.

Lemma histogram_insert_fresh (uv : gmap string string) (u c k : string) :
  uv !! u = None →
  histogram (<[u := c]> uv) k
  = histogram uv k + (if decide (c = k) then 1 else 0).
Proof.
  intros Hu. unfold histogram. rewrite map_filter_insert.
  change ((u, c).2 = k) with (c = k).
  destruct (decide (c = k)) as [->|Hne].
  - rewrite map_size_insert_None; [lia|].
    apply map_lookup_filter_None. by left.
  - rewrite delete_id by done. lia.
Qed.

Lemma histogram_insert_over (uv : gmap string string) (u p c k : string) :
  uv !! u = Some p →
  histogram (<[u := c]> uv) k
  = histogram uv k - (if decide (p = k) then 1 else 0)
                   + (if decide (c = k) then 1 else 0).
Proof.
  intros Hu.
  rewrite <- (insert_delete_eq uv u c).
  rewrite <- (insert_delete_id uv u p Hu) at 2.
  rewrite !histogram_insert_fresh by apply lookup_delete_eq. lia.
Qed.

Lemma histogram_pos (uv : gmap string string) (u p : string) :
  uv !! u = Some p → 1 <= histogram uv p.
Proof.
  intros Hu. rewrite <- (insert_delete_id uv u p Hu).
  rewrite histogram_insert_fresh by apply lookup_delete_eq.
  rewrite decide_True by done.
  pose proof (histogram_nonneg (delete u uv) p). lia.
Qed.

(** ** Single CastVote calls *)

Lemma index_lookup (m : gmap string Z) (k : string) (n : Z) :
  m !! k = Some n → index m k = n.
Proof. intros H. unfold index. by rewrite H. Qed.

(** C2 (P5, repeat vote still increments), as it holds on the code: when
    the record of [u] already holds [A] and the count of [A] is below the
    largest [int], a further CastVote(u, A) is accepted, raises the count
    of [A] by exactly 1, changes no other count, and leaves the record as
    it was. *)
Theorem C2_repeat_vote_increments (s : Store) (u A : string) (n : Z) :
  userVotes s !! u = Some A →
  voteCounts s !! A = Some n →
  GoInt.in_range n →
  n < GoInt.max_int →
  (CastVote u A s).2 = VoteRecorded ∧
  voteCounts (CastVote u A s).1 !! A = Some (n + 1) ∧
  (∀ k, k ≠ A → voteCounts (CastVote u A s).1 !! k = voteCounts s !! k) ∧
  userVotes (CastVote u A s).1 !! u = Some A ∧
  userVotes (CastVote u A s).1 = userVotes s.
Proof.
  intros Hu Hn [Hlo _] Hhi. unfold CastVote.
  rewrite castVote_valid by (simpl; eauto). simpl.
  rewrite retractPrevious_same by done.
  unfold incrAt. rewrite (index_lookup _ _ _ Hn).
  rewrite GoInt_incr_exact by lia.
  repeat split.
  - apply lookup_insert_eq.
  - intros k Hk. by rewrite lookup_insert_ne.
  - apply lookup_insert_eq.
  - by apply insert_id.
Qed.

(** C4 (P4, switch decrements old, increments new), as it holds on the
    code: when the record of [u] holds [A], [B] is another valid category,
    the count of [A] is above the smallest [int] and the count of [B] below
    the largest, CastVote(u, B) lowers the count of [A] by exactly 1,
    raises the count of [B] by exactly 1, leaves every other count alone
    and records [B] for [u]. *)
Theorem C4_switch_moves_one_vote (s : Store) (u A B : string) (a b : Z) :
  userVotes s !! u = Some A →
  A ≠ B →
  voteCounts s !! A = Some a →
  voteCounts s !! B = Some b →
  GoInt.in_range a →
  GoInt.in_range b →
  GoInt.min_int < a →
  b < GoInt.max_int →
  (CastVote u B s).2 = VoteRecorded ∧
  voteCounts (CastVote u B s).1 !! A = Some (a - 1) ∧
  voteCounts (CastVote u B s).1 !! B = Some (b + 1) ∧
  (∀ k, k ≠ A → k ≠ B → voteCounts (CastVote u B s).1 !! k = voteCounts s !! k) ∧
  userVotes (CastVote u B s).1 = <[u := B]> (userVotes s).
Proof.
  intros Hu Hne Ha Hb [_ Hahi] [Hblo _] Halo Hbhi. unfold CastVote.
  rewrite castVote_valid by (simpl; eauto). simpl.
  rewrite (retractPrevious_other _ _ A) by done.
  unfold incrAt, decrAt. rewrite (index_lookup _ _ _ Ha).
  assert (index (<[A := GoInt.decr a]> (voteCounts s)) B = b) as ->.
  { apply index_lookup. by rewrite lookup_insert_ne. }
  rewrite GoInt_decr_exact, GoInt_incr_exact by lia.
  repeat split.
  - rewrite lookup_insert_ne by done. apply lookup_insert_eq.
  - apply lookup_insert_eq.
  - intros k HkA HkB. by rewrite !lookup_insert_ne.
Qed.

(** C5 (P6, first vote), as it holds on the code: for a user without a
    record and a valid category [C] whose count is below the largest
    [int], CastVote(u, C) is accepted, raises the count of [C] by exactly
    1, creates the record entry [u := C] and changes no other count. *)
Theorem C5_first_vote (s : Store) (u C : string) (n : Z) :
  userVotes s !! u = None →
  voteCounts s !! C = Some n →
  GoInt.in_range n →
  n < GoInt.max_int →
  (CastVote u C s).2 = VoteRecorded ∧
  voteCounts (CastVote u C s).1 !! C = Some (n + 1) ∧
  (∀ k, k ≠ C → voteCounts (CastVote u C s).1 !! k = voteCounts s !! k) ∧
  userVotes (CastVote u C s).1 !! u = Some C ∧
  userVotes (CastVote u C s).1 = <[u := C]> (userVotes s).
Proof.
  intros Hu Hn [Hlo _] Hhi. unfold CastVote.
  rewrite castVote_valid by (simpl; eauto). simpl.
  rewrite retractPrevious_none by done.
  unfold incrAt. rewrite (index_lookup _ _ _ Hn).
  rewrite GoInt_incr_exact by lia.
  repeat split.
  - apply lookup_insert_eq.
  - intros k Hk. by rewrite lookup_insert_ne.
  - apply lookup_insert_eq.
Qed.

Lemma castVote_count_of_vote (req : VoteRequest) (s : Store) (n : Z) :
  voteCounts s !! Vote req = Some n →
  voteCounts (castVote req s).1 !! Vote req = Some (GoInt.incr n).
Proof.
  intros Hn. rewrite castVote_valid by eauto. simpl.
  unfold incrAt. rewrite lookup_insert_eq. f_equal. f_equal.
  apply index_lookup. unfold retractPrevious.
  destruct (userVotes s !! UserID req) as [p|]; [|done].
  case_decide; [|done].
  unfold decrAt. by rewrite lookup_insert_ne.
Qed.

Lemma castVote_keeps_keys (req : VoteRequest) (s : Store) (k : string) :
  is_Some (voteCounts s !! k) → is_Some (voteCounts (castVote req s).1 !! k).
Proof.
  intros Hk. unfold castVote.
  destruct (voteCounts s !! Vote req) as [n|] eqn:Hn; [|done]. simpl.
  unfold incrAt. rewrite lookup_insert_is_Some'. right.
  unfold retractPrevious.
  destruct (userVotes s !! UserID req) as [p|]; [|done].
  case_decide; [|done].
  unfold decrAt. rewrite lookup_insert_is_Some'. by right.
Qed.

(** C10 (no validation of the user identifier), as it holds on the code:
    for any string [u], the empty string included, and any valid category
    whose count is below the largest [int], CastVote is accepted, raises
    the count of that category by exactly 1 and writes the record entry
    keyed by [u], whether or not [u] had one; a second call with the same
    [u] overwrites that one entry, so all callers that send the same
    (empty) identifier share a single record. *)
Theorem C10_userID_not_validated (s : Store) (u c1 c2 : string) (n : Z) :
  voteCounts s !! c1 = Some n →
  GoInt.in_range n →
  n < GoInt.max_int →
  is_Some (voteCounts s !! c2) →
  (CastVote u c1 s).2 = VoteRecorded ∧
  voteCounts (CastVote u c1 s).1 !! c1 = Some (n + 1) ∧
  userVotes (CastVote u c1 s).1 = <[u := c1]> (userVotes s) ∧
  (CastVote u c2 (CastVote u c1 s).1).2 = VoteRecorded ∧
  userVotes (CastVote u c2 (CastVote u c1 s).1).1 = <[u := c2]> (userVotes s).
Proof.
  intros H1 [Hlo _] Hhi H2. unfold CastVote.
  pose proof (castVote_keeps_keys (mkReq u c1) s c2 H2) as H2'.
  split; [by rewrite castVote_valid by (simpl; eauto)|].
  split.
  { rewrite <- (GoInt_incr_exact n) by lia.
    by apply (castVote_count_of_vote (mkReq u c1)). }
  split; [by rewrite castVote_valid by (simpl; eauto)|].
  rewrite (castVote_valid (mkReq u c2)) by done. simpl.
  split; [done|].
  rewrite castVote_valid by (simpl; eauto). simpl.
  apply insert_insert_eq.
Qed.

(** ** Runs from the initial store *)

Lemma step_wf (c : Call) (s : Store) : wf s → wf (step c s).
Proof.
  intros Hwf. destruct c as [u cat|]; simpl.
  - by apply castVote_wf.
  - done.
Qed.

Lemma run_wf (calls : list Call) (s : Store) : wf s → wf (run calls s).
Proof.
  revert s. induction calls as [|c rest IH]; intros s Hwf; [done|].
  simpl. apply IH. by apply step_wf.
Qed.

(** C3 (P3, rejection is a no-op): in every store reached from the initial
    one, CastVote fails exactly when the category is outside the three
    fixed ones; the failure is [InvalidCategory] and hands back the store
    unchanged; any category of the enumeration is accepted, whatever the
    record of the user holds. *)
Theorem C3_rejects_exactly_invalid (reqs : list VoteRequest) (u c : string) :
  ((CastVote u c (runVotes reqs init)).2 = InvalidCategory ↔ c ∉ categories) ∧
  (c ∉ categories →
     CastVote u c (runVotes reqs init) = (runVotes reqs init, InvalidCategory)) ∧
  (c ∈ categories → (CastVote u c (runVotes reqs init)).2 = VoteRecorded).
Proof.
  pose proof (runVotes_wf reqs init init_wf) as [Hdom _].
  unfold CastVote. repeat split.
  - intros H. apply castVote_outcome in H. simpl in H. by rewrite <- Hdom.
  - intros H. apply castVote_outcome. simpl. by rewrite Hdom.
  - intros H. apply castVote_invalid. simpl.
    apply not_elem_of_dom. by rewrite Hdom.
  - intros H. rewrite castVote_valid; [done|]. simpl.
    apply elem_of_dom. by rewrite Hdom.
Qed.

Lemma init_counts_zero (c : string) :
  c ∈ categories → voteCounts init !! c = Some 0.
Proof.
  intros Hc. unfold categories in Hc.
  apply elem_of_union in Hc as [Hc|Hc%elem_of_singleton];
    [apply elem_of_union in Hc as [Hc%elem_of_singleton|Hc%elem_of_singleton]|];
    subst c; by vm_compute.
Qed.

(** C9 (fixed key set): the tally starts with exactly the three categories,
    each at 0, and after any sequence of CastVote and Snapshot calls its
    key set is still exactly those three. *)
Theorem C9_tally_keys_fixed (calls : list Call) :
  size categories = 3%nat ∧
  dom (voteCounts init) = categories ∧
  (∀ c, c ∈ categories → voteCounts init !! c = Some 0) ∧
  dom (voteCounts (run calls init)) = categories ∧
  dom (Snapshot (run calls init)) = categories.
Proof.
  pose proof init_wf as [Hinit _].
  pose proof (run_wf calls init init_wf) as [Hrun _].
  split; [by vm_compute|]. split; [done|]. split; [|done].
  apply init_counts_zero.
Qed.

Lemma Snapshot_voteCounts (s : Store) : Snapshot s = voteCounts s.
Proof. reflexivity. Qed.

(** C8 (scenario): from the initial store, the votes u1/Hot, u1/Cold,
    u1/Cold, u2/Hot give the snapshots (1,0,0), (0,0,1), (0,0,2) and
    (1,0,2) for (Hot, Mild, Cold), one after each call. *)
Theorem C8_scenario :
  Snapshot init = tallyOf 0 0 0 ∧
  Snapshot (runVotes [mkReq "u1" Hot] init) = tallyOf 1 0 0 ∧
  Snapshot (runVotes [mkReq "u1" Hot; mkReq "u1" Cold] init) = tallyOf 0 0 1 ∧
  Snapshot (runVotes [mkReq "u1" Hot; mkReq "u1" Cold; mkReq "u1" Cold] init)
    = tallyOf 0 0 2 ∧
  Snapshot (runVotes [mkReq "u1" Hot; mkReq "u1" Cold; mkReq "u1" Cold;
                      mkReq "u2" Hot] init)
    = tallyOf 1 0 2.
Proof. repeat split; by vm_compute. Qed.

(** C1 (tally = histogram of the record), evaluated where it breaks: after
    the same user votes Hot twice the tally holds 2 for Hot while the record
    holds a single user, so the tally is not the histogram and the sum of
    the counts (2) is not the number of voters (1). *)
Theorem C1_repeat_vote_breaks_histogram :
  let s := runVotes [mkReq "u1" Hot; mkReq "u1" Hot] init in
  (castVote (mkReq "u1" Hot) init).2 = VoteRecorded ∧
  (castVote (mkReq "u1" Hot) (castVote (mkReq "u1" Hot) init).1).2 = VoteRecorded ∧
  voteCounts s !! Hot = Some 2 ∧
  histogram (userVotes s) Hot = 1 ∧
  totalVotes s = 2 ∧
  voters s = 1 ∧
  ¬ tallyIsHistogram s.
Proof.
  simpl. repeat split; try by vm_compute.
  intros H. specialize (H Hot 2). simpl in H.
  assert (2 = 1) as Habs by (apply H; by vm_compute). lia.
Qed.

(** ** The record follows the last accepted vote *)

Lemma castVote_rejected_state (req : VoteRequest) (s : Store) :
  (castVote req s).2 = InvalidCategory → (castVote req s).1 = s.
Proof.
  unfold castVote. destruct (voteCounts s !! Vote req); simpl; [congruence|done].
Qed.

Lemma castVote_accepted_record (req : VoteRequest) (s : Store) :
  (castVote req s).2 = VoteRecorded →
  userVotes (castVote req s).1 = <[UserID req := Vote req]> (userVotes s).
Proof.
  unfold castVote. destruct (voteCounts s !! Vote req); simpl; [done|congruence].
Qed.

Lemma runVotes_record (u : string) (reqs : list VoteRequest) (s : Store) :
  userVotes (runVotes reqs s) !! u
  = match last (acceptedBy u reqs s) with
    | Some c => Some c
    | None => userVotes s !! u
    end.
Proof.
  revert s. induction reqs as [|req rest IH]; intros s; [done|].
  simpl. rewrite IH.
  pose proof (castVote_rejected_state req s) as Hrej.
  pose proof (castVote_accepted_record req s) as Hacc.
  destruct (castVote req s) as [s' [|]]; simpl in *.
  - rewrite Hacc by done.
    destruct (decide (UserID req = u)) as [->|Hne]; simpl.
    + rewrite last_cons. rewrite lookup_insert_eq.
      by destruct (last (acceptedBy u rest s')).
    + by rewrite lookup_insert_ne.
  - by rewrite Hrej.
Qed.

(** C7 (P2, single current vote): after any prefix of any sequence of
    CastVote calls in which at least one vote of [u] was accepted, the
    record holds for [u] the category of the last accepted vote of [u],
    and no other. *)
Theorem C7_record_is_last_accepted
    (reqs : list VoteRequest) (n : nat) (u : string) :
  acceptedBy u (take n reqs) init ≠ [] →
  ∃ c, last (acceptedBy u (take n reqs) init) = Some c ∧
       userVotes (runVotes (take n reqs) init) !! u = Some c ∧
       ∀ c', userVotes (runVotes (take n reqs) init) !! u = Some c' → c' = c.
Proof.
  intros Hacc. rewrite runVotes_record.
  destruct (last (acceptedBy u (take n reqs) init)) as [c|] eqn:Hlast.
  - exists c. repeat split. congruence.
  - apply last_None in Hlast. contradiction.
Qed.

(** ** Counts stay between the histogram and the number of calls *)

Lemma init_bounded : bounded 0 init.
Proof.
  intros c n Hc.
  assert (histogram (userVotes init) c = 0) as -> by done.
  assert (is_Some (voteCounts init !! c)) as Hdom by eauto.
  apply elem_of_dom in Hdom. destruct init_wf as [Hd _]. rewrite Hd in Hdom.
  pose proof (init_counts_zero c Hdom) as H0. rewrite Hc in H0.
  injection H0 as ->. lia.
Qed.

Lemma bounded_weaken (m m' : Z) (s : Store) :
  m <= m' → bounded m s → bounded m' s.
Proof. intros Hm Hb c n Hc. specialize (Hb c n Hc). simpl in Hb. lia. Qed.

Lemma castVote_bounded (m : Z) (req : VoteRequest) (s : Store) :
  wf s → bounded m s → 0 <= m < GoInt.max_int →
  bounded (m + 1) (castVote req s).1.
Proof.
  intros [Hdom Hrec] Hb Hm. unfold castVote.
  destruct (voteCounts s !! Vote req) as [n|] eqn:Hn;
    [|apply (bounded_weaken m); [lia|done]].
  pose proof (Hb _ _ Hn) as Hbn. simpl in Hbn.
  pose proof (histogram_nonneg (userVotes s) (Vote req)) as Hh0.
  assert (GoInt.incr n = n + 1) as Hincr.
  { apply GoInt_incr_exact. unfold GoInt.min_int, GoInt.max_int, GoInt.bits in *. lia. }
  intros k x. simpl. unfold incrAt, retractPrevious.
  destruct (userVotes s !! UserID req) as [p|] eqn:Hp.
  - rewrite (histogram_insert_over _ _ p) by done.
    destruct (decide (p ≠ Vote req)) as [Hne|Heq].
    + assert (p ∈ dom (voteCounts s)) as [np Hnp]%elem_of_dom.
      { rewrite Hdom. by apply (Hrec _ _ Hp). }
      pose proof (Hb _ _ Hnp) as Hbp. simpl in Hbp.
      pose proof (histogram_pos _ _ _ Hp) as Hpos.
      assert (GoInt.decr np = np - 1) as Hdecr.
      { apply GoInt_decr_exact.
        unfold GoInt.min_int, GoInt.max_int, GoInt.bits in *. lia. }
      unfold decrAt. rewrite (index_lookup _ _ _ Hnp), Hdecr.
      rewrite (index_lookup _ (Vote req) n) by (by rewrite lookup_insert_ne).
      rewrite Hincr.
      destruct (decide (Vote req = k)) as [<-|Hk].
      * rewrite lookup_insert_eq. intros [= <-].
        rewrite decide_False by done. lia.
      * rewrite lookup_insert_ne by done.
        destruct (decide (p = k)) as [<-|Hk'].
        -- rewrite lookup_insert_eq. intros [= <-]. lia.
        -- rewrite lookup_insert_ne by done. intros Hx.
           pose proof (Hb _ _ Hx) as Hbx. simpl in Hbx. lia.
    + apply dec_stable in Heq. subst p.
      rewrite (index_lookup _ _ _ Hn), Hincr.
      destruct (decide (Vote req = k)) as [<-|Hk].
      * rewrite lookup_insert_eq. intros [= <-]. lia.
      * rewrite lookup_insert_ne by done. intros Hx.
        pose proof (Hb _ _ Hx) as Hbx. simpl in Hbx. lia.
  - rewrite histogram_insert_fresh by done.
    rewrite (index_lookup _ _ _ Hn), Hincr.
    destruct (decide (Vote req = k)) as [<-|Hk].
    + rewrite lookup_insert_eq. intros [= <-]. lia.
    + rewrite lookup_insert_ne by done. intros Hx.
      pose proof (Hb _ _ Hx) as Hbx. simpl in Hbx. lia.
Qed.

Lemma runVotes_bounded (reqs : list VoteRequest) (m : Z) (s : Store) :
  wf s → bounded m s → 0 <= m →
  m + Z.of_nat (length reqs) <= GoInt.max_int →
  bounded (m + Z.of_nat (length reqs)) (runVotes reqs s).
Proof.
  revert m s. induction reqs as [|req rest IH]; intros m s Hwf Hb Hm Hlen.
  - simpl. by rewrite Z.add_0_r.
  - simpl runVotes. rewrite length_cons, Nat2Z.inj_succ in *.
    replace (m + Z.succ (Z.of_nat (length rest)))
      with ((m + 1) + Z.of_nat (length rest)) by lia.
    apply IH.
    + by apply castVote_wf.
    + apply castVote_bounded; [done|done|lia].
    + lia.
    + lia.
Qed.

(** C6 (P1, tally non-negativity), as it holds on the code: for every
    sequence of fewer than 2^63 CastVote calls from the initial store (so
    that no 64-bit count can have wrapped around), every count of the
    snapshot is at least 0. *)
Theorem C6_counts_nonnegative (reqs : list VoteRequest) (c : string) (n : Z) :
  Z.of_nat (length reqs) < 2 ^ 63 →
  Snapshot (runVotes reqs init) !! c = Some n →
  0 <= n.
Proof.
  intros Hlen Hc. rewrite Snapshot_voteCounts in Hc.
  assert (bounded (0 + Z.of_nat (length reqs)) (runVotes reqs init)) as Hb.
  { apply runVotes_bounded; [apply init_wf|apply init_bounded|lia|].
    unfold GoInt.max_int, GoInt.bits. lia. }
  specialize (Hb c n Hc). simpl in Hb.
  pose proof (histogram_nonneg (userVotes (runVotes reqs init)) c). lia.
Qed.

(** ** Wrap-around after 2^63 votes *)

Lemma GoInt_wrap_add_l (a b : Z) :
  GoInt.wrap (GoInt.wrap a + b) = GoInt.wrap (a + b).
Proof.
  unfold GoInt.wrap.
  replace ((a + 2 ^ (GoInt.bits - 1)) mod GoInt.modulus - 2 ^ (GoInt.bits - 1)
           + b + 2 ^ (GoInt.bits - 1))
    with ((a + 2 ^ (GoInt.bits - 1)) mod GoInt.modulus + b) by lia.
  rewrite Zplus_mod_idemp_l. f_equal. f_equal. lia.
Qed.

Lemma GoInt_wrap_id (z : Z) : GoInt.in_range z → GoInt.wrap z = z.
Proof.
  unfold GoInt.in_range, GoInt.wrap, GoInt.min_int, GoInt.max_int,
    GoInt.modulus, GoInt.bits.
  intros Hz. rewrite Z.mod_small; lia.
Qed.

(* [k] votes of one user for one category add [k] to its count, modulo
   2^64. *)
Lemma repeat_vote_count (u c : string) (k : nat) (s : Store) (n : Z) :
  voteCounts s !! c = Some n →
  GoInt.in_range n →
  userVotes s !! u = None ∨ userVotes s !! u = Some c →
  voteCounts (runVotes (repeat (mkReq u c) k) s) !! c
  = Some (GoInt.wrap (n + Z.of_nat k)).
Proof.
  revert s n. induction k as [|k IH]; intros s n Hn Hr Hu.
  - simpl. rewrite Z.add_0_r. by rewrite GoInt_wrap_id.
  - cbn [repeat runVotes].
    rewrite (IH _ (GoInt.incr n)).
    + unfold GoInt.incr. rewrite GoInt_wrap_add_l. do 2 f_equal. lia.
    + by apply (castVote_count_of_vote (mkReq u c)).
    + apply GoInt_wrap_in_range.
    + right. rewrite castVote_valid by (simpl; eauto). simpl.
      apply lookup_insert_eq.
Qed.

(** C6 as stated (every sequence of CastVote calls) fails: after 2^63
    votes of one user for Hot the 64-bit count of Hot has wrapped around
    to -2^63. *)
Lemma C6_wraps_negative :
  Snapshot (runVotes overflowRun init) !! Hot = Some (-9223372036854775808) ∧
  ¬ (∀ c n, Snapshot (runVotes overflowRun init) !! c = Some n → 0 <= n).
Proof.
  assert (Snapshot (runVotes overflowRun init) !! Hot
          = Some (-9223372036854775808)) as H.
  { rewrite Snapshot_voteCounts. unfold overflowRun.
    rewrite (repeat_vote_count "u1" Hot _ init 0).
    - rewrite Z2Nat.id by lia. reflexivity.
    - reflexivity.
    - unfold GoInt.in_range, GoInt.min_int, GoInt.max_int, GoInt.bits. lia.
    - by left. }
  split; [exact H|].
  intros Hall. specialize (Hall _ _ H). lia.
Qed.

(** ** The theorems at concrete stores *)

Lemma C2_repeat_vote_witness :
  userVotes (runVotes [mkReq "u1" Hot] init) !! "u1" = Some Hot ∧
  voteCounts (runVotes [mkReq "u1" Hot] init) !! Hot = Some 1 ∧
  GoInt.in_range 1 ∧
  1 < GoInt.max_int ∧
  voteCounts (CastVote "u1" Hot (runVotes [mkReq "u1" Hot] init)).1 !! Hot
    = Some (1 + 1).
Proof.
  split; [reflexivity|]. split; [reflexivity|].
  split; [split; vm_compute; discriminate|]. split; [reflexivity|].
  destruct (C2_repeat_vote_increments
              (runVotes [mkReq "u1" Hot] init) "u1" Hot 1) as (_ & H & _);
    [reflexivity|reflexivity|split; vm_compute; discriminate|reflexivity
    |exact H].
Defined.

Lemma C4_switch_witness :
  userVotes (runVotes [mkReq "u1" Hot] init) !! "u1" = Some Hot ∧
  Hot ≠ Cold ∧
  voteCounts (runVotes [mkReq "u1" Hot] init) !! Hot = Some 1 ∧
  voteCounts (runVotes [mkReq "u1" Hot] init) !! Cold = Some 0 ∧
  GoInt.in_range 1 ∧
  GoInt.in_range 0 ∧
  GoInt.min_int < 1 ∧
  0 < GoInt.max_int ∧
  voteCounts (CastVote "u1" Cold (runVotes [mkReq "u1" Hot] init)).1 !! Hot
    = Some (1 - 1) ∧
  voteCounts (CastVote "u1" Cold (runVotes [mkReq "u1" Hot] init)).1 !! Cold
    = Some (0 + 1).
Proof.
  split; [reflexivity|]. split; [discriminate|].
  split; [reflexivity|]. split; [reflexivity|].
  split; [split; vm_compute; discriminate|].
  split; [split; vm_compute; discriminate|].
  split; [reflexivity|]. split; [reflexivity|].
  destruct (C4_switch_moves_one_vote
              (runVotes [mkReq "u1" Hot] init) "u1" Hot Cold 1 0)
    as (_ & HA & HB & _);
    [reflexivity|discriminate|reflexivity|reflexivity
    |split; vm_compute; discriminate|split; vm_compute; discriminate
    |reflexivity|reflexivity|exact (conj HA HB)].
Defined.

Lemma C5_first_vote_witness :
  userVotes init !! "u1" = None ∧
  voteCounts init !! Mild = Some 0 ∧
  GoInt.in_range 0 ∧
  0 < GoInt.max_int ∧
  voteCounts (CastVote "u1" Mild init).1 !! Mild = Some (0 + 1).
Proof.
  split; [reflexivity|]. split; [reflexivity|].
  split; [split; vm_compute; discriminate|]. split; [reflexivity|].
  destruct (C5_first_vote init "u1" Mild 0) as (_ & H & _);
    [reflexivity|reflexivity|split; vm_compute; discriminate|reflexivity
    |exact H].
Defined.

Lemma C6_counts_nonnegative_witness :
  Z.of_nat (length [mkReq "u1" Hot; mkReq "u1" Cold]) < 2 ^ 63 ∧
  Snapshot (runVotes [mkReq "u1" Hot; mkReq "u1" Cold] init) !! Hot = Some 0 ∧
  0 <= 0.
Proof.
  split; [reflexivity|]. split; [reflexivity|].
  apply (C6_counts_nonnegative [mkReq "u1" Hot; mkReq "u1" Cold] Hot 0);
    reflexivity.
Defined.

Lemma C7_record_witness :
  acceptedBy "u1"
    (take 2 [mkReq "u1" Hot; mkReq "u1" Cold; mkReq "u2" Hot]) init ≠ [] ∧
  ∃ c, last (acceptedBy "u1"
               (take 2 [mkReq "u1" Hot; mkReq "u1" Cold; mkReq "u2" Hot]) init)
       = Some c ∧
       userVotes (runVotes
                    (take 2 [mkReq "u1" Hot; mkReq "u1" Cold; mkReq "u2" Hot])
                    init) !! "u1" = Some c ∧
       ∀ c', userVotes (runVotes
                          (take 2 [mkReq "u1" Hot; mkReq "u1" Cold; mkReq "u2" Hot])
                          init) !! "u1" = Some c' → c' = c.
Proof.
  split; [vm_compute; discriminate|].
  apply (C7_record_is_last_accepted
           [mkReq "u1" Hot; mkReq "u1" Cold; mkReq "u2" Hot] 2 "u1").
  vm_compute; discriminate.
Defined.

Lemma C10_empty_userID_witness :
  voteCounts init !! Hot = Some 0 ∧
  GoInt.in_range 0 ∧
  0 < GoInt.max_int ∧
  is_Some (voteCounts init !! Cold) ∧
  (CastVote "" Hot init).2 = VoteRecorded ∧
  voteCounts (CastVote "" Hot init).1 !! Hot = Some (0 + 1) ∧
  userVotes (CastVote "" Hot init).1 = <["" := Hot]> (userVotes init) ∧
  (CastVote "" Cold (CastVote "" Hot init).1).2 = VoteRecorded ∧
  userVotes (CastVote "" Cold (CastVote "" Hot init).1).1
    = <["" := Cold]> (userVotes init).
Proof.
  split; [reflexivity|]. split; [split; vm_compute; discriminate|].
  split; [reflexivity|]. split; [exists 0; reflexivity|].
  apply (C10_userID_not_validated init "" Hot Cold 0);
    [reflexivity|split; vm_compute; discriminate|reflexivity
    |exists 0; reflexivity].
Defined.

(** * Further properties of the handlers *)

(** ** Responses of voteHandler and resultsHandler *)

(** X1: voteHandler answers 200 exactly for a POST whose body decoded and
    whose vote label is a key of the tally; it answers 405 exactly for
    other methods (whatever the body), and 400 otherwise. *)
Theorem voteHandler_status (method : string) (decoded : Decoded) (s : Store) :
  (status (voteHandler method decoded s).2 = 200 ↔
     method = "POST" ∧
     ∃ req, decoded = DecodedRequest req ∧ Vote req ∈ dom (voteCounts s)) ∧
  (status (voteHandler method decoded s).2 = 405 ↔ method ≠ "POST") ∧
  (status (voteHandler method decoded s).2 = 400 ↔
     method = "POST" ∧
     ∀ req, decoded = DecodedRequest req → Vote req ∉ dom (voteCounts s)).
Proof.
  unfold voteHandler.
  destruct (decide (method ≠ "POST")) as [Hm|Hm]; simpl.
  - naive_solver.
  - apply dec_stable in Hm. subst method.
    destruct decoded as [msg|req]; simpl.
    + naive_solver.
    + pose proof (castVote_outcome req s) as Hout.
      destruct (castVote req s) as [s' [|]]; simpl in *.
      * assert (Vote req ∈ dom (voteCounts s)) as Hin.
        { apply dec_stable. intros Hn. apply Hout in Hn. done. }
        naive_solver.
      * assert (Vote req ∉ dom (voteCounts s)) as Hin by (by apply Hout).
        naive_solver.
Qed.

(** X2: voteHandler changes the store only when it answers 200: on a
    wrong method, an undecodable body or an unknown vote label both maps
    are handed back as they were. *)
Theorem voteHandler_error_keeps_store
    (method : string) (decoded : Decoded) (s : Store) :
  status (voteHandler method decoded s).2 ≠ 200 →
  (voteHandler method decoded s).1 = s.
Proof.
  unfold voteHandler.
  destruct (decide (method ≠ "POST")); [done|].
  destruct decoded as [msg|req]; [done|].
  pose proof (castVote_rejected_state req s) as Hrej.
  destruct (castVote req s) as [s' [|]]; simpl in *; [done|].
  intros _. by apply Hrej.
Qed.

(** resultsHandler never changes the store; for GET it answers 200
    with the current tally as its body, for any other method 405 without
    the tally. *)
Theorem resultsHandler_read_only (method : string) (s : Store) :
  (resultsHandler method s).1 = s ∧
  (method = "GET" →
     (resultsHandler method s).2 = mkResp 200 (Json (voteCounts s))) ∧
  (method ≠ "GET" →
     (resultsHandler method s).2 = mkResp 405 (line "Invalid request method")).
Proof.
  unfold resultsHandler.
  destruct (decide (method ≠ "GET")) as [Hm|Hm]; simpl.
  - repeat split; done.
  - apply dec_stable in Hm. repeat split; done.
Qed.

(** X3: the store after any sequence of handler invocations is the store
    after casting, in order, the decoded bodies of its POST /vote
    invocations; everything else (results queries, wrong methods,
    undecodable bodies) leaves no trace. *)
Theorem serveAll_is_runVotes (invs : list Invocation) (s : Store) :
  (serveAll invs s).1 = runVotes (votesOf invs) s ∧
  length (serveAll invs s).2 = length invs.
Proof.
  revert s. induction invs as [|i rest IH]; intros s; [done|].
  simpl serveAll.
  destruct (handle i s) as [s1 r] eqn:Hh.
  specialize (IH s1). destruct (serveAll rest s1) as [s2 rs]. simpl in *.
  destruct IH as [-> ->]. split; [|done].
  assert (s1 = (handle i s).1) as -> by (by rewrite Hh). clear Hh.
  destruct i as [method decoded|method]; simpl.
  - destruct decoded as [msg|req].
    + f_equal. unfold voteHandler. by destruct (decide (method ≠ "POST")).
    + destruct (decide (method = "POST")) as [->|Hm].
      * simpl. f_equal. apply voteHandler_post.
      * f_equal. unfold voteHandler. by rewrite decide_True.
  - f_equal. unfold resultsHandler. by destruct (decide (method ≠ "GET")).
Qed.

(** ** The tally in terms of the record *)

Lemma GoInt_incr_wrap (z : Z) : GoInt.incr (GoInt.wrap z) = GoInt.wrap (z + 1).
Proof. unfold GoInt.incr. apply GoInt_wrap_add_l. Qed.

Lemma GoInt_decr_wrap (z : Z) : GoInt.decr (GoInt.wrap z) = GoInt.wrap (z - 1).
Proof.
  unfold GoInt.decr. rewrite <- !Z.add_opp_r. apply GoInt_wrap_add_l.
Qed.

(* The count of any key after an accepted vote. *)
Lemma castVote_count_at (req : VoteRequest) (s : Store) (k : string) :
  is_Some (voteCounts s !! Vote req) →
  voteCounts (castVote req s).1 !! k
  = if decide (k = Vote req)
    then Some (GoInt.incr (index (voteCounts s) k))
    else if decide (userVotes s !! UserID req = Some k)
         then Some (GoInt.decr (index (voteCounts s) k))
         else voteCounts s !! k.
Proof.
  intros Hv. rewrite castVote_valid by done. simpl.
  unfold incrAt, retractPrevious, decrAt.
  destruct (decide (k = Vote req)) as [->|Hk].
  - rewrite lookup_insert_eq. do 2 f_equal.
    destruct (userVotes s !! UserID req) as [p|]; [|done].
    case_decide; [|done].
    unfold index. by rewrite lookup_insert_ne.
  - rewrite lookup_insert_ne by done.
    destruct (userVotes s !! UserID req) as [p|]; [|by rewrite decide_False].
    destruct (decide (p ≠ Vote req)) as [Hp|Hp].
    + destruct (decide (p = k)) as [->|Hpk].
      * rewrite lookup_insert_eq. by rewrite decide_True.
      * rewrite lookup_insert_ne by done.
        by rewrite decide_False by congruence.
    + apply dec_stable in Hp. subst p. by rewrite decide_False by congruence.
Qed.

Lemma tally_exact_step (c : string) (req : VoteRequest) (s : Store) (d : Z) :
  voteCounts s !! c = Some (GoInt.wrap (histogram (userVotes s) c + d)) →
  voteCounts (castVote req s).1 !! c
  = Some (GoInt.wrap (histogram (userVotes (castVote req s).1) c + d
                      + (if isRepeat c req s then 1 else 0))).
Proof.
  intros Hc. unfold isRepeat.
  destruct (voteCounts s !! Vote req) as [n|] eqn:Hn.
  - rewrite castVote_count_at by eauto.
    rewrite castVote_valid by eauto. simpl.
    rewrite (index_lookup _ _ _ Hc), GoInt_incr_wrap, GoInt_decr_wrap.
    destruct (userVotes s !! UserID req) as [p|] eqn:Hp.
    + rewrite (histogram_insert_over _ _ p) by done.
      repeat case_decide; case_bool_decide; simplify_eq;
        try (exfalso; naive_solver); rewrite ?Hc; do 2 f_equal; lia.
    + rewrite histogram_insert_fresh by done.
      repeat case_decide; case_bool_decide; simplify_eq;
        try (exfalso; naive_solver); rewrite ?Hc; do 2 f_equal; lia.
  - rewrite castVote_invalid by done. simpl. by rewrite Z.add_0_r.
Qed.

Lemma tally_exact_run (c : string) (reqs : list VoteRequest) (s : Store) (d : Z) :
  voteCounts s !! c = Some (GoInt.wrap (histogram (userVotes s) c + d)) →
  voteCounts (runVotes reqs s) !! c
  = Some (GoInt.wrap (histogram (userVotes (runVotes reqs s)) c
                      + d + repeats c reqs s)).
Proof.
  revert s d. induction reqs as [|req rest IH]; intros s d Hc.
  - simpl. by rewrite Z.add_0_r.
  - simpl. rewrite (IH _ (d + (if isRepeat c req s then 1 else 0))).
    + do 2 f_equal. lia.
    + rewrite Z.add_assoc. by apply tally_exact_step.
Qed.

(** X4: after any sequence of votes from the initial store, the count of
    a category is the number of users currently recorded for it plus the
    number of accepted votes that repeated the sender's current category,
    reduced to a 64-bit [int]. *)
Theorem tally_is_histogram_plus_repeats (reqs : list VoteRequest) (c : string) :
  c ∈ categories →
  voteCounts (runVotes reqs init) !! c
  = Some (GoInt.wrap (histogram (userVotes (runVotes reqs init)) c
                      + repeats c reqs init)).
Proof.
  intros Hc.
  rewrite (tally_exact_run c reqs init 0).
  - do 2 f_equal. lia.
  - by rewrite init_counts_zero.
Qed.

Lemma repeats_nonneg (c : string) (reqs : list VoteRequest) (s : Store) :
  0 <= repeats c reqs s.
Proof.
  revert s. induction reqs as [|req rest IH]; intros s; simpl; [lia|].
  specialize (IH (castVote req s).1). destruct (isRepeat c req s); lia.
Qed.

Lemma histogram_repeat_step (c : string) (req : VoteRequest) (s : Store) :
  histogram (userVotes (castVote req s).1) c
    + (if isRepeat c req s then 1 else 0)
  <= histogram (userVotes s) c + 1.
Proof.
  unfold isRepeat.
  destruct (voteCounts s !! Vote req) as [n|] eqn:Hn.
  - rewrite castVote_valid by eauto. simpl.
    destruct (userVotes s !! UserID req) as [p|] eqn:Hp.
    + rewrite (histogram_insert_over _ _ p) by done.
      repeat case_decide; case_bool_decide; simplify_eq;
        try (exfalso; naive_solver); lia.
    + rewrite histogram_insert_fresh by done.
      repeat case_decide; case_bool_decide; simplify_eq;
        try (exfalso; naive_solver); lia.
  - rewrite castVote_invalid by done. simpl. lia.
Qed.

Lemma histogram_repeats_bound (c : string) (reqs : list VoteRequest) (s : Store) :
  histogram (userVotes (runVotes reqs s)) c + repeats c reqs s
  <= histogram (userVotes s) c + Z.of_nat (length reqs).
Proof.
  revert s. induction reqs as [|req rest IH]; intros s.
  - simpl. lia.
  - simpl runVotes. simpl repeats. rewrite length_cons, Nat2Z.inj_succ.
    specialize (IH (castVote req s).1).
    pose proof (histogram_repeat_step c req s). lia.
Qed.

Lemma count_exact (reqs : list VoteRequest) (c : string) :
  Z.of_nat (length reqs) < 2 ^ 63 →
  c ∈ categories →
  voteCounts (runVotes reqs init) !! c
  = Some (histogram (userVotes (runVotes reqs init)) c + repeats c reqs init).
Proof.
  intros Hlen Hc.
  pose proof (repeats_nonneg c reqs init) as Hr.
  pose proof (histogram_repeats_bound c reqs init) as Hb.
  pose proof (histogram_nonneg (userVotes (runVotes reqs init)) c) as Hh.
  assert (histogram (userVotes init) c = 0) as Hz by done.
  rewrite (tally_exact_run c reqs init 0) by (by rewrite init_counts_zero).
  rewrite Z.add_0_r. f_equal. apply GoInt_wrap_id.
  unfold GoInt.in_range, GoInt.min_int, GoInt.max_int, GoInt.bits. lia.
Qed.

(** X5: for fewer than 2^63 votes from the initial store nothing wraps: the
    count of a category is exactly the number of users recorded for it plus
    the number of repeated votes for it, so it is never below the histogram
    of the record and never above the number of votes sent. *)
Theorem tally_exact_below_overflow (reqs : list VoteRequest) (c : string) :
  Z.of_nat (length reqs) < 2 ^ 63 →
  c ∈ categories →
  voteCounts (runVotes reqs init) !! c
  = Some (histogram (userVotes (runVotes reqs init)) c + repeats c reqs init) ∧
  histogram (userVotes (runVotes reqs init)) c
  <= histogram (userVotes (runVotes reqs init)) c + repeats c reqs init
  <= Z.of_nat (length reqs).
Proof.
  intros Hlen Hc.
  pose proof (repeats_nonneg c reqs init) as Hr.
  pose proof (histogram_repeats_bound c reqs init) as Hb.
  pose proof (histogram_nonneg (userVotes (runVotes reqs init)) c) as Hh.
  assert (histogram (userVotes init) c = 0) as Hz by done.
  split; [by apply count_exact|lia].
Qed.

(** ** The record *)

(** X6: after any sequence of CastVote and Snapshot calls every recorded
    vote is one of the three categories and has an entry in the tally. *)
Theorem recorded_votes_are_categories (calls : list Call) :
  map_Forall
    (λ _ c, c ∈ categories ∧ is_Some (voteCounts (run calls init) !! c))
    (userVotes (run calls init)).
Proof.
  destruct (run_wf calls init init_wf) as [Hdom Hrec].
  intros u c Hu. simpl. pose proof (Hrec u c Hu) as Hc. simpl in Hc.
  split; [done|]. apply elem_of_dom. by rewrite Hdom.
Qed.

Lemma castVote_skip_invalid (req : VoteRequest) (s : Store) :
  wf s → Vote req ∉ categories → (castVote req s).1 = s.
Proof.
  intros [Hdom _] Hv. rewrite castVote_invalid; [done|].
  apply not_elem_of_dom. by rewrite Hdom.
Qed.

Lemma runVotes_validOnly (reqs : list VoteRequest) (s : Store) :
  wf s → runVotes reqs s = runVotes (validOnly reqs) s.
Proof.
  revert s. induction reqs as [|req rest IH]; intros s Hwf; [done|].
  unfold validOnly. rewrite filter_cons.
  destruct (decide (Vote req ∈ categories)) as [Hv|Hv]; simpl.
  - apply IH. by apply castVote_wf.
  - rewrite castVote_skip_invalid by done. by apply IH.
Qed.

(** X7: votes with an unknown label can be dropped from any sequence: the
    store after the whole sequence is the store after its valid votes
    alone. *)
Theorem invalid_votes_leave_no_trace (reqs : list VoteRequest) :
  runVotes reqs init = runVotes (validOnly reqs) init.
Proof. apply runVotes_validOnly, init_wf. Qed.

Lemma runVotes_voters (reqs : list VoteRequest) (s : Store) :
  wf s →
  dom (userVotes (runVotes reqs s))
  = dom (userVotes s) ∪ list_to_set (UserID <$> validOnly reqs).
Proof.
  revert s. induction reqs as [|req rest IH]; intros s Hwf.
  - simpl. set_solver.
  - simpl runVotes. rewrite IH by (by apply castVote_wf).
    unfold validOnly. rewrite filter_cons.
    destruct (decide (Vote req ∈ categories)) as [Hv|Hv].
    + rewrite castVote_valid.
      * simpl. rewrite dom_insert_L. set_solver.
      * destruct Hwf as [Hdom _]. apply elem_of_dom. by rewrite Hdom.
    + by rewrite castVote_skip_invalid.
Qed.

(** X8: the users with a record are exactly the senders of the votes that
    named a valid category; no vote ever removes a user from the record. *)
Theorem voters_are_valid_senders (reqs : list VoteRequest) :
  dom (userVotes (runVotes reqs init)) = list_to_set (UserID <$> validOnly reqs).
Proof.
  rewrite runVotes_voters by apply init_wf. simpl. set_solver.
Qed.

(** ** How votes compose *)

Lemma Store_eq (s1 s2 : Store) :
  voteCounts s1 = voteCounts s2 → userVotes s1 = userVotes s2 → s1 = s2.
Proof. destruct s1, s2; simpl; by intros -> ->. Qed.

Lemma GoInt_incr_decr (z : Z) : GoInt.in_range z → GoInt.incr (GoInt.decr z) = z.
Proof.
  intros Hz. unfold GoInt.decr. rewrite GoInt_incr_wrap.
  replace (z - 1 + 1) with z by lia. by apply GoInt_wrap_id.
Qed.

Lemma GoInt_decr_incr (z : Z) : GoInt.in_range z → GoInt.decr (GoInt.incr z) = z.
Proof.
  intros Hz. unfold GoInt.incr. rewrite GoInt_decr_wrap.
  replace (z + 1 - 1) with z by lia. by apply GoInt_wrap_id.
Qed.

Lemma GoInt_incr_decr_comm (z : Z) :
  GoInt.incr (GoInt.decr z) = GoInt.decr (GoInt.incr z).
Proof.
  unfold GoInt.decr at 1. unfold GoInt.incr at 2.
  rewrite GoInt_incr_wrap, GoInt_decr_wrap. f_equal. lia.
Qed.

(** X9: switching to another category and back restores the store: when
    [u] is recorded for [A], a vote of [u] for a valid [B] followed by a
    vote of [u] for [A] leaves both maps exactly as they were. *)
Theorem switch_and_back_restores (s : Store) (u A B : string) (a b : Z) :
  userVotes s !! u = Some A →
  A ≠ B →
  voteCounts s !! A = Some a →
  voteCounts s !! B = Some b →
  GoInt.in_range a →
  GoInt.in_range b →
  (CastVote u A (CastVote u B s).1).1 = s.
Proof.
  intros Hu Hne Ha Hb Hra Hrb. unfold CastVote.
  assert (is_Some (voteCounts (castVote (mkReq u B) s).1 !! A)) as HA'
    by (apply castVote_keeps_keys; eauto).
  assert (userVotes (castVote (mkReq u B) s).1 = <[u := B]> (userVotes s)) as Hrec1.
  { by rewrite castVote_valid by (simpl; eauto). }
  apply Store_eq.
  - apply map_eq. intros k.
    rewrite (castVote_count_at (mkReq u A)) by done. simpl.
    rewrite Hrec1, lookup_insert_eq. unfold index.
    rewrite !(castVote_count_at (mkReq u B)) by (simpl; eauto). simpl.
    rewrite Hu. unfold index.
    repeat case_decide; simplify_eq.
    + rewrite Ha. simpl. by rewrite GoInt_incr_decr.
    + rewrite Hb. simpl. by rewrite GoInt_decr_incr.
    + done.
  - rewrite castVote_valid by done. simpl.
    rewrite Hrec1, insert_insert_eq. by apply insert_id.
Qed.

Lemma castVote_record_other (req : VoteRequest) (s : Store) (v : string) :
  UserID req ≠ v → userVotes (castVote req s).1 !! v = userVotes s !! v.
Proof.
  intros Hv. unfold castVote.
  destruct (voteCounts s !! Vote req); simpl; [|done].
  by rewrite lookup_insert_ne.
Qed.

Lemma wf_valid (s : Store) (c : string) :
  wf s → c ∈ categories → is_Some (voteCounts s !! c).
Proof. intros [Hdom _] Hc. apply elem_of_dom. by rewrite Hdom. Qed.

(** X10: accepted or not, votes of two different users commute: from a
    well-formed store, casting them in either order gives the same store
    (so the order in which the mutex admits them does not matter). *)
Theorem votes_of_distinct_users_commute (r1 r2 : VoteRequest) (s : Store) :
  wf s →
  UserID r1 ≠ UserID r2 →
  (castVote r2 (castVote r1 s).1).1 = (castVote r1 (castVote r2 s).1).1.
Proof.
  intros Hwf Hu.
  pose proof (castVote_wf r1 s Hwf) as Hwf1.
  pose proof (castVote_wf r2 s Hwf) as Hwf2.
  destruct (decide (Vote r1 ∈ categories)) as [H1|H1];
    [|by rewrite !(castVote_skip_invalid r1)].
  destruct (decide (Vote r2 ∈ categories)) as [H2|H2];
    [|by rewrite !(castVote_skip_invalid r2)].
  apply Store_eq.
  - apply map_eq. intros k.
    rewrite (castVote_count_at r2 (castVote r1 s).1) by (by apply wf_valid).
    rewrite (castVote_count_at r1 (castVote r2 s).1) by (by apply wf_valid).
    rewrite castVote_record_other by done.
    rewrite (castVote_record_other r2) by done.
    unfold index.
    rewrite !(castVote_count_at r1 s), !(castVote_count_at r2 s)
      by (by apply wf_valid).
    unfold index.
    repeat case_decide; simplify_eq; simpl; try done;
      try (by rewrite GoInt_incr_decr_comm);
      try (by rewrite <- GoInt_incr_decr_comm).
  - rewrite (castVote_valid r2 (castVote r1 s).1) by (by apply wf_valid).
    rewrite (castVote_valid r1 (castVote r2 s).1) by (by apply wf_valid).
    simpl.
    rewrite (castVote_valid r1 s), (castVote_valid r2 s) by (by apply wf_valid).
    simpl. by apply insert_insert_ne.
Qed.

Lemma record_isolated (u : string) (reqs : list VoteRequest) (s1 s2 : Store) :
  wf s1 → wf s2 →
  userVotes s1 !! u = userVotes s2 !! u →
  userVotes (runVotes reqs s1) !! u
  = userVotes (runVotes (sentBy u reqs) s2) !! u.
Proof.
  revert s1 s2. induction reqs as [|req rest IH]; intros s1 s2 Hwf1 Hwf2 Heq;
    [done|].
  unfold sentBy. rewrite filter_cons.
  destruct (decide (UserID req = u)) as [<-|Hne]; simpl.
  - apply IH; [by apply castVote_wf|by apply castVote_wf|].
    destruct (decide (Vote req ∈ categories)) as [Hv|Hv].
    + rewrite !castVote_valid by (by apply wf_valid). simpl.
      by rewrite !lookup_insert_eq.
    + by rewrite !castVote_skip_invalid.
  - apply IH; [by apply castVote_wf|done|].
    by rewrite castVote_record_other.
Qed.

(** X11: what the record holds for a user depends on that user's own
    requests only: it is the same after the whole sequence as after the
    requests of that user alone. *)
Theorem record_depends_on_own_votes (reqs : list VoteRequest) (u : string) :
  userVotes (runVotes reqs init) !! u
  = userVotes (runVotes (sentBy u reqs) init) !! u.
Proof. apply record_isolated; [apply init_wf|apply init_wf|done]. Qed.

(** ** The sum of the counts *)

Lemma categories_distinct : Hot ≠ Mild ∧ Hot ≠ Cold ∧ Mild ≠ Cold.
Proof. repeat split; discriminate. Qed.

Lemma elem_of_categories (c : string) :
  c ∈ categories ↔ c = Hot ∨ c = Mild ∨ c = Cold.
Proof. unfold categories. set_solver. Qed.

Lemma sum_tallyOf (h m c : Z) :
  map_fold (λ (_ : string) n acc, n + acc) 0 (tallyOf h m c) = h + m + c.
Proof.
  destruct categories_distinct as (HM & HC & MC).
  unfold tallyOf.
  rewrite !map_fold_insert_L, map_fold_empty; first lia.
  all: try (intros; lia).
  - apply lookup_empty.
  - by rewrite lookup_insert_ne.
  - by rewrite !lookup_insert_ne.
Qed.

Lemma wf_tallyOf (s : Store) :
  wf s →
  voteCounts s
  = tallyOf (index (voteCounts s) Hot) (index (voteCounts s) Mild)
            (index (voteCounts s) Cold).
Proof.
  intros Hwf. destruct categories_distinct as (HM & HC & MC).
  apply map_eq. intros k. unfold tallyOf.
  destruct (decide (k ∈ categories)) as [Hk|Hk].
  - destruct (wf_valid s k Hwf Hk) as [n Hn].
    apply elem_of_categories in Hk as [->| [->| ->]].
    + rewrite lookup_insert_eq. by rewrite (index_lookup _ _ _ Hn).
    + rewrite lookup_insert_ne, lookup_insert_eq by done.
      by rewrite (index_lookup _ _ _ Hn).
    + rewrite !lookup_insert_ne, lookup_insert_eq by done.
      by rewrite (index_lookup _ _ _ Hn).
  - assert (voteCounts s !! k = None) as ->.
    { apply not_elem_of_dom. destruct Hwf as [-> _]. done. }
    rewrite elem_of_categories in Hk.
    rewrite !lookup_insert_ne by naive_solver. done.
Qed.

Lemma voters_split (uv : gmap string string) :
  map_Forall (λ _ c, c ∈ categories) uv →
  Z.of_nat (size uv) = histogram uv Hot + histogram uv Mild + histogram uv Cold.
Proof.
  destruct categories_distinct as (HM & HC & MC).
  induction uv as [|u c uv Hu IH] using map_ind; intros Hall.
  - done.
  - apply map_Forall_insert in Hall as [Hc Hall]; [|done].
    rewrite map_size_insert_None by done.
    rewrite !histogram_insert_fresh by done.
    specialize (IH Hall).
    apply elem_of_categories in Hc as [->| [->| ->]];
      repeat case_decide; simplify_eq; lia.
Qed.

(** X12: for fewer than 2^63 votes from the initial store, the sum of the
    three counts is the number of users with a record plus the number of
    repeated votes: every vote that repeats its sender's current category
    inflates the total by one. *)
Theorem total_is_voters_plus_repeats (reqs : list VoteRequest) :
  Z.of_nat (length reqs) < 2 ^ 63 →
  totalVotes (runVotes reqs init)
  = voters (runVotes reqs init) + allRepeats reqs init.
Proof.
  intros Hlen.
  pose proof (runVotes_wf reqs init init_wf) as Hwf.
  assert (∀ c, c ∈ categories →
            index (voteCounts (runVotes reqs init)) c
            = histogram (userVotes (runVotes reqs init)) c + repeats c reqs init)
    as Hexact.
  { intros c Hc. by apply index_lookup, count_exact. }
  unfold voters, allRepeats, totalVotes.
  rewrite (voters_split _ (proj2 Hwf)).
  rewrite (wf_tallyOf _ Hwf), sum_tallyOf.
  rewrite !Hexact by (apply elem_of_categories; naive_solver). lia.
Qed.

(** X13: for fewer than 2^63 votes from the initial store, the tally is
    the histogram of the record exactly when no accepted vote repeated its
    sender's current category. *)
Theorem tally_is_histogram_iff_no_repeats (reqs : list VoteRequest) :
  Z.of_nat (length reqs) < 2 ^ 63 →
  tallyIsHistogram (runVotes reqs init) ↔ allRepeats reqs init = 0.
Proof.
  intros Hlen.
  pose proof (runVotes_wf reqs init init_wf) as Hwf.
  pose proof (repeats_nonneg Hot reqs init).
  pose proof (repeats_nonneg Mild reqs init).
  pose proof (repeats_nonneg Cold reqs init).
  unfold allRepeats, tallyIsHistogram. split.
  - intros Hall.
    assert (∀ c, c ∈ categories → repeats c reqs init = 0) as Hzero.
    { intros c Hc. pose proof (count_exact reqs c Hlen Hc) as Hex.
      specialize (Hall _ _ Hex). simpl in Hall. lia. }
    rewrite !Hzero by (apply elem_of_categories; naive_solver). done.
  - intros Hsum c n Hc. simpl.
    assert (c ∈ categories) as Hin.
    { destruct Hwf as [<- _]. apply elem_of_dom. eauto. }
    rewrite (count_exact reqs c Hlen Hin) in Hc. injection Hc as <-.
    apply elem_of_categories in Hin as [->| [->| ->]]; lia.
Qed.

(** X14: a recorded vote is counted: for fewer than 2^63 votes from the
    initial store, the category a user is recorded for has a count of at
    least 1. *)
Theorem recorded_vote_is_counted
    (reqs : list VoteRequest) (u c : string) :
  Z.of_nat (length reqs) < 2 ^ 63 →
  userVotes (runVotes reqs init) !! u = Some c →
  ∃ n, voteCounts (runVotes reqs init) !! c = Some n ∧ 1 <= n.
Proof.
  intros Hlen Hu.
  pose proof (runVotes_wf reqs init init_wf) as Hwf.
  assert (c ∈ categories) as Hc by (by apply (proj2 Hwf u c)).
  destruct (wf_valid _ c Hwf Hc) as [n Hn]. exists n. split; [done|].
  assert (bounded (0 + Z.of_nat (length reqs)) (runVotes reqs init)) as Hb.
  { apply runVotes_bounded; [apply init_wf|apply init_bounded|lia|].
    unfold GoInt.max_int, GoInt.bits. lia. }
  specialize (Hb c n Hn). simpl in Hb.
  pose proof (histogram_pos _ _ _ Hu). lia.
Qed.

(** ** The further properties at concrete stores *)

Lemma voteHandler_error_keeps_store_witness :
  status (voteHandler "GET" (DecodedRequest (mkReq "u1" Hot)) init).2 ≠ 200 ∧
  (voteHandler "GET" (DecodedRequest (mkReq "u1" Hot)) init).1 = init.
Proof.
  split; [vm_compute; discriminate|].
  apply (voteHandler_error_keeps_store "GET" (DecodedRequest (mkReq "u1" Hot)) init).
  vm_compute; discriminate.
Defined.

Lemma tally_is_histogram_plus_repeats_witness :
  Hot ∈ categories ∧
  voteCounts (runVotes [mkReq "u1" Hot; mkReq "u1" Hot] init) !! Hot
  = Some (GoInt.wrap
            (histogram (userVotes (runVotes [mkReq "u1" Hot; mkReq "u1" Hot] init)) Hot
             + repeats Hot [mkReq "u1" Hot; mkReq "u1" Hot] init)).
Proof.
  split; [by vm_compute|].
  apply (tally_is_histogram_plus_repeats [mkReq "u1" Hot; mkReq "u1" Hot] Hot).
  by vm_compute.
Defined.

Lemma tally_exact_below_overflow_witness :
  Z.of_nat (length [mkReq "u1" Hot; mkReq "u1" Hot]) < 2 ^ 63 ∧
  Hot ∈ categories ∧
  voteCounts (runVotes [mkReq "u1" Hot; mkReq "u1" Hot] init) !! Hot
  = Some (histogram (userVotes (runVotes [mkReq "u1" Hot; mkReq "u1" Hot] init)) Hot
          + repeats Hot [mkReq "u1" Hot; mkReq "u1" Hot] init).
Proof.
  split; [reflexivity|]. split; [by vm_compute|].
  apply (tally_exact_below_overflow [mkReq "u1" Hot; mkReq "u1" Hot] Hot);
    [reflexivity|by vm_compute].
Defined.

Lemma switch_and_back_restores_witness :
  userVotes (runVotes [mkReq "u1" Hot] init) !! "u1" = Some Hot ∧
  Hot ≠ Cold ∧
  voteCounts (runVotes [mkReq "u1" Hot] init) !! Hot = Some 1 ∧
  voteCounts (runVotes [mkReq "u1" Hot] init) !! Cold = Some 0 ∧
  GoInt.in_range 1 ∧
  GoInt.in_range 0 ∧
  (CastVote "u1" Hot (CastVote "u1" Cold (runVotes [mkReq "u1" Hot] init)).1).1
  = runVotes [mkReq "u1" Hot] init.
Proof.
  split; [reflexivity|]. split; [discriminate|].
  split; [reflexivity|]. split; [reflexivity|].
  split; [split; vm_compute; discriminate|].
  split; [split; vm_compute; discriminate|].
  apply (switch_and_back_restores
           (runVotes [mkReq "u1" Hot] init) "u1" Hot Cold 1 0);
    [reflexivity|discriminate|reflexivity|reflexivity
    |split; vm_compute; discriminate|split; vm_compute; discriminate].
Defined.

Lemma votes_of_distinct_users_commute_witness :
  wf (runVotes [mkReq "u1" Hot] init) ∧
  "u1" ≠ "u2" ∧
  (castVote (mkReq "u2" Hot)
     (castVote (mkReq "u1" Cold) (runVotes [mkReq "u1" Hot] init)).1).1
  = (castVote (mkReq "u1" Cold)
       (castVote (mkReq "u2" Hot) (runVotes [mkReq "u1" Hot] init)).1).1.
Proof.
  assert (wf (runVotes [mkReq "u1" Hot] init)) as Hwf.
  { split; [vm_compute; reflexivity|].
    apply map_Forall_insert_2; [by vm_compute|apply map_Forall_empty]. }
  split; [exact Hwf|]. split; [discriminate|].
  apply (votes_of_distinct_users_commute
           (mkReq "u1" Cold) (mkReq "u2" Hot) (runVotes [mkReq "u1" Hot] init));
    [exact Hwf|discriminate].
Defined.

Lemma total_is_voters_plus_repeats_witness :
  Z.of_nat (length [mkReq "u1" Hot; mkReq "u1" Hot; mkReq "u2" Cold]) < 2 ^ 63 ∧
  totalVotes (runVotes [mkReq "u1" Hot; mkReq "u1" Hot; mkReq "u2" Cold] init)
  = voters (runVotes [mkReq "u1" Hot; mkReq "u1" Hot; mkReq "u2" Cold] init)
    + allRepeats [mkReq "u1" Hot; mkReq "u1" Hot; mkReq "u2" Cold] init.
Proof.
  split; [reflexivity|].
  apply (total_is_voters_plus_repeats
           [mkReq "u1" Hot; mkReq "u1" Hot; mkReq "u2" Cold]).
  reflexivity.
Defined.

Lemma tally_is_histogram_iff_no_repeats_witness :
  Z.of_nat (length [mkReq "u1" Hot; mkReq "u2" Cold]) < 2 ^ 63 ∧
  (tallyIsHistogram (runVotes [mkReq "u1" Hot; mkReq "u2" Cold] init) ↔
   allRepeats [mkReq "u1" Hot; mkReq "u2" Cold] init = 0).
Proof.
  split; [reflexivity|].
  apply (tally_is_histogram_iff_no_repeats [mkReq "u1" Hot; mkReq "u2" Cold]).
  reflexivity.
Defined.

Lemma recorded_vote_is_counted_witness :
  Z.of_nat (length [mkReq "u1" Hot; mkReq "u2" Cold]) < 2 ^ 63 ∧
  userVotes (runVotes [mkReq "u1" Hot; mkReq "u2" Cold] init) !! "u1" = Some Hot ∧
  ∃ n, voteCounts (runVotes [mkReq "u1" Hot; mkReq "u2" Cold] init) !! Hot = Some n
       ∧ 1 <= n.
Proof.
  split; [reflexivity|]. split; [reflexivity|].
  apply (recorded_vote_is_counted [mkReq "u1" Hot; mkReq "u2" Cold] "u1" Hot);
    reflexivity.
Defined.

(** ** Evaluations *)

Example repeats_three_hot :
  repeats Hot [mkReq "u1" Hot; mkReq "u1" Hot; mkReq "u1" Cold; mkReq "u1" Hot;
               mkReq "u1" Hot] init = 2.
Proof. by vm_compute. Qed.

Example serveAll_mixed :
  let invs := [ToVote "POST" (DecodedRequest (mkReq "u1" Hot));
               ToVote "GET" (DecodedRequest (mkReq "u2" Hot));
               ToVote "POST" (DecodeError "EOF");
               ToVote "POST" (DecodedRequest (mkReq "u3" "warm"));
               ToResults "POST";
               ToResults "GET"] in
  votesOf invs = [mkReq "u1" Hot; mkReq "u3" "warm"] ∧
  status <$> (serveAll invs init).2 = [200; 405; 400; 400; 405; 200] ∧
  last (body <$> (serveAll invs init).2) = Some (Json (tallyOf 1 0 0)).
Proof. by vm_compute. Qed.

(** ** Votes at the ends of the int range *)

Lemma repeat_vote_record (u c : string) (k : nat) (s : Store) :
  is_Some (voteCounts s !! c) →
  (0 < k)%nat ∨ userVotes s !! u = Some c →
  userVotes (runVotes (repeat (mkReq u c) k) s) !! u = Some c.
Proof.
  revert s. induction k as [|k IH]; intros s Hc Hk.
  - destruct Hk as [Hk|Hk]; [lia|exact Hk].
  - cbn [repeat runVotes]. apply IH.
    + by apply castVote_keeps_keys.
    + right. rewrite castVote_valid by exact Hc. apply lookup_insert_eq.
Qed.

Lemma repeat_vote_other (u c v : string) (k : nat) (s : Store) :
  u ≠ v →
  userVotes (runVotes (repeat (mkReq u c) k) s) !! v = userVotes s !! v.
Proof.
  intros Hv. revert s. induction k as [|k IH]; intros s; [reflexivity|].
  cbn [repeat runVotes]. rewrite IH. by apply castVote_record_other.
Qed.

Lemma castVote_accepts (req : VoteRequest) (s : Store) :
  is_Some (voteCounts s !! Vote req) → (castVote req s).2 = VoteRecorded.
Proof. intros H. by rewrite castVote_valid. Qed.

Lemma saturatingRun_count (s : Store) :
  voteCounts s !! Hot = Some 0 →
  userVotes s !! "u1" = None →
  voteCounts (runVotes saturatingRun s) !! Hot = Some 9223372036854775807.
Proof.
  intros Hc Hu. unfold saturatingRun.
  rewrite (repeat_vote_count "u1" Hot _ s 0).
  - rewrite Z2Nat.id by lia. reflexivity.
  - exact Hc.
  - unfold GoInt.in_range, GoInt.min_int, GoInt.max_int, GoInt.bits. lia.
  - left. exact Hu.
Qed.

Lemma saturated_count :
  voteCounts saturated !! Hot = Some 9223372036854775807.
Proof. apply saturatingRun_count; reflexivity. Qed.

Lemma saturated_record : userVotes saturated !! "u1" = Some Hot.
Proof.
  apply repeat_vote_record; [exists 0; reflexivity|]. left. lia.
Qed.

Lemma saturated_no_record (v : string) :
  "u1" ≠ v → userVotes saturated !! v = None.
Proof.
  intros Hv. unfold saturated, saturatingRun.
  rewrite repeat_vote_other by exact Hv. reflexivity.
Qed.

Lemma saturatedAfterCold_count :
  voteCounts saturatedAfterCold !! Hot = Some 9223372036854775807.
Proof. apply saturatingRun_count; reflexivity. Qed.

Lemma saturatedAfterCold_record :
  userVotes saturatedAfterCold !! "u2" = Some Cold.
Proof.
  unfold saturatedAfterCold, saturatingRun.
  rewrite repeat_vote_other by discriminate. reflexivity.
Qed.

Lemma overflowed_count :
  voteCounts overflowed !! Hot = Some (-9223372036854775808).
Proof.
  unfold overflowed, overflowRun.
  rewrite (repeat_vote_count "u1" Hot _ init 0).
  - rewrite Z2Nat.id by lia. reflexivity.
  - reflexivity.
  - unfold GoInt.in_range, GoInt.min_int, GoInt.max_int, GoInt.bits. lia.
  - left. reflexivity.
Qed.

Lemma overflowed_record : userVotes overflowed !! "u1" = Some Hot.
Proof.
  apply repeat_vote_record; [exists 0; reflexivity|]. left. lia.
Qed.

Lemma overflowed_valid (c : string) :
  c ∈ categories → is_Some (voteCounts overflowed !! c).
Proof. apply wf_valid, runVotes_wf, init_wf. Qed.

(* A vote for a category whose count is the largest [int] is accepted and
   wraps the count to the smallest [int]. *)
Lemma vote_at_max_int (u c : string) (s : Store) :
  voteCounts s !! c = Some 9223372036854775807 →
  (CastVote u c s).2 = VoteRecorded ∧
  voteCounts (CastVote u c s).1 !! c = Some (-9223372036854775808) ∧
  userVotes (CastVote u c s).1 !! u = Some c.
Proof.
  intros Hc. unfold CastVote.
  assert ((castVote (mkReq u c) s).2 = VoteRecorded) as Hacc.
  { apply castVote_accepts. simpl. eauto. }
  split; [exact Hacc|]. split.
  - exact (castVote_count_of_vote (mkReq u c) s _ Hc).
  - rewrite castVote_accepted_record by exact Hacc. apply lookup_insert_eq.
Qed.

(* A switch away from a category whose count is the smallest [int] wraps
   that count to the largest [int]. *)
Lemma switch_at_min_int (u A B : string) (s : Store) :
  userVotes s !! u = Some A →
  A ≠ B →
  voteCounts s !! A = Some (-9223372036854775808) →
  is_Some (voteCounts s !! B) →
  (CastVote u B s).2 = VoteRecorded ∧
  voteCounts (CastVote u B s).1 !! A = Some 9223372036854775807.
Proof.
  intros Hu Hne Ha Hb. unfold CastVote. split.
  - by apply castVote_accepts.
  - rewrite castVote_count_at by exact Hb. simpl.
    rewrite decide_False by exact Hne.
    rewrite decide_True by exact Hu.
    by rewrite (index_lookup _ _ _ Ha).
Qed.

(** C2 as stated (every user recorded for A) fails: in the store after
    2^63 - 1 votes of "u1" for Hot, "u1" is recorded for Hot with the count
    of Hot at 2^63 - 1, and one more vote of "u1" for Hot is accepted but
    takes the count to -2^63 instead of 2^63. *)
Lemma C2_wraps_at_max_int :
  userVotes saturated !! "u1" = Some Hot ∧
  voteCounts saturated !! Hot = Some 9223372036854775807 ∧
  (CastVote "u1" Hot saturated).2 = VoteRecorded ∧
  voteCounts (CastVote "u1" Hot saturated).1 !! Hot
    = Some (-9223372036854775808) ∧
  voteCounts (CastVote "u1" Hot saturated).1 !! Hot
    ≠ Some (9223372036854775807 + 1).
Proof.
  destruct (vote_at_max_int "u1" Hot saturated saturated_count)
    as (Hacc & Hcnt & _).
  split; [exact saturated_record|]. split; [exact saturated_count|].
  split; [exact Hacc|]. split; [exact Hcnt|].
  rewrite Hcnt. discriminate.
Qed.

(** C4 as stated (exactly -1 and +1 for every switch) fails at both ends
    of the [int] range: with Hot at 2^63 - 1, the switch of "u2" from Cold
    to Hot takes Hot to -2^63; with Hot wrapped to -2^63, the switch of
    "u1" from Hot to Cold takes Hot to 2^63 - 1. *)
Lemma C4_wraps_at_int_bounds :
  (userVotes saturatedAfterCold !! "u2" = Some Cold ∧
   Cold ≠ Hot ∧
   voteCounts saturatedAfterCold !! Hot = Some 9223372036854775807 ∧
   (CastVote "u2" Hot saturatedAfterCold).2 = VoteRecorded ∧
   voteCounts (CastVote "u2" Hot saturatedAfterCold).1 !! Hot
     = Some (-9223372036854775808) ∧
   voteCounts (CastVote "u2" Hot saturatedAfterCold).1 !! Hot
     ≠ Some (9223372036854775807 + 1)) ∧
  (userVotes overflowed !! "u1" = Some Hot ∧
   Hot ≠ Cold ∧
   voteCounts overflowed !! Hot = Some (-9223372036854775808) ∧
   (CastVote "u1" Cold overflowed).2 = VoteRecorded ∧
   voteCounts (CastVote "u1" Cold overflowed).1 !! Hot
     = Some 9223372036854775807 ∧
   voteCounts (CastVote "u1" Cold overflowed).1 !! Hot
     ≠ Some (-9223372036854775808 - 1)).
Proof.
  destruct (vote_at_max_int "u2" Hot saturatedAfterCold
              saturatedAfterCold_count) as (Hacc & Hcnt & _).
  assert (Hot ≠ Cold) as Hne by discriminate.
  assert (Cold ∈ categories) as Hcold by (by vm_compute).
  destruct (switch_at_min_int "u1" Hot Cold overflowed
              overflowed_record Hne overflowed_count
              (overflowed_valid Cold Hcold)) as [Hacc' Hcnt'].
  split.
  - split; [exact saturatedAfterCold_record|]. split; [discriminate|].
    split; [exact saturatedAfterCold_count|]. split; [exact Hacc|].
    split; [exact Hcnt|]. rewrite Hcnt. discriminate.
  - split; [exact overflowed_record|]. split; [exact Hne|].
    split; [exact overflowed_count|]. split; [exact Hacc'|].
    split; [exact Hcnt'|]. rewrite Hcnt'. discriminate.
Qed.

(** C5 as stated (every first vote adds exactly 1) fails: "u2" has no
    record in the store after 2^63 - 1 votes of "u1" for Hot, and the first
    vote of "u2" for Hot is accepted but takes the count of Hot from
    2^63 - 1 to -2^63. *)
Lemma C5_wraps_at_max_int :
  userVotes saturated !! "u2" = None ∧
  voteCounts saturated !! Hot = Some 9223372036854775807 ∧
  (CastVote "u2" Hot saturated).2 = VoteRecorded ∧
  voteCounts (CastVote "u2" Hot saturated).1 !! Hot
    = Some (-9223372036854775808) ∧
  voteCounts (CastVote "u2" Hot saturated).1 !! Hot
    ≠ Some (9223372036854775807 + 1).
Proof.
  destruct (vote_at_max_int "u2" Hot saturated saturated_count)
    as (Hacc & Hcnt & _).
  split; [apply saturated_no_record; discriminate|].
  split; [exact saturated_count|].
  split; [exact Hacc|]. split; [exact Hcnt|].
  rewrite Hcnt. discriminate.
Qed.

(** C10 as stated (every accepted call increments the tally) fails: in the
    store after 2^63 - 1 votes of "u1" for Hot, a vote with the empty user
    identifier for Hot is accepted and recorded, but the count of Hot goes
    from 2^63 - 1 down to -2^63. *)
Lemma C10_wraps_at_max_int :
  userVotes saturated !! "" = None ∧
  voteCounts saturated !! Hot = Some 9223372036854775807 ∧
  (CastVote "" Hot saturated).2 = VoteRecorded ∧
  userVotes (CastVote "" Hot saturated).1 !! "" = Some Hot ∧
  voteCounts (CastVote "" Hot saturated).1 !! Hot
    = Some (-9223372036854775808) ∧
  ¬ (9223372036854775807 < -9223372036854775808).
Proof.
  destruct (vote_at_max_int "" Hot saturated saturated_count)
    as (Hacc & Hcnt & Hrec).
  split; [apply saturated_no_record; discriminate|].
  split; [exact saturated_count|].
  split; [exact Hacc|]. split; [exact Hrec|].
  split; [exact Hcnt|]. lia.
Qed.

Example newline_is_LF : newline = String (Ascii.ascii_of_nat 10) EmptyString.
Proof. reflexivity. Qed.

Example voteHandler_bodies :
  body (voteHandler "GET" (DecodeError "EOF") init).2
    = Text ("Invalid request method" +:+ newline) ∧
  body (voteHandler "POST" (DecodedRequest (mkReq "u1" "warm")) init).2
    = Text ("Invalid vote option" +:+ newline) ∧
  body (voteHandler "POST" (DecodedRequest (mkReq "u1" Hot)) init).2
    = Text ("Vote recorded successfully" +:+ newline).
Proof. by vm_compute. Qed.
